(** * Audacity, src/prefs/EffectsPrefs.cpp: the Effects preferences panel

    A shallow embedding of the module discovery ([GetModuleData]) and of the
    form construction ([PopulateOrExchange], [Populate], [Commit]) of the
    Effects preferences panel, with the properties of the panel's
    specification stated and proved over it. *)

From Stdlib Require Import ZArith Ascii.
From stdpp Require Import base strings list gmap sorting.

(** ** Strings *)

(** [wxString] is modelled by Rocq's [string]; [operator<] on [wxString] is
    the lexicographic comparison of the character codes, [String.ltb]. *)
Abbreviation wxString := string (only parsing).

(** [wxString::empty()] *)
Definition empty (s : wxString) : bool :=
  match s with
  | EmptyString => true
  | String _ _ => false
  end.

(** ** The plugin registry, as far as the panel consults it *)

(** Modelled from the spec: the kinds of plugins of the registry
    (PluginManager.h is not part of the sources); the panel names only
    [PluginTypeModule]. *)
Inductive PluginType :=
  | PluginTypeEffect
  | PluginTypeModule
  | PluginTypeOther.

Global Instance PluginType_eq_dec : EqDecision PluginType.
Proof. solve_decision. Defined.

(** Modelled from the spec: [ComponentInterfaceSymbol] (declared outside
    the sources), of which the panel reads [Msgid], the plugin's "generic
    display label", untranslated. *)
Record ComponentInterfaceSymbol := {
  Msgid : wxString;
}.

(** Modelled from the spec: [PluginDescriptor] (declared outside the
    sources), with the accessors that the panel calls and the plugin's
    identity, from which the registry computes the setting path. *)
Record PluginDescriptor := {
  GetID : wxString;
  GetPluginType : PluginType;
  GetSymbol : ComponentInterfaceSymbol;
  GetEffectFamily : wxString;
}.

Global Instance ComponentInterfaceSymbol_eq_dec :
  EqDecision ComponentInterfaceSymbol.
Proof. solve_decision. Defined.

Global Instance PluginDescriptor_eq_dec : EqDecision PluginDescriptor.
Proof. solve_decision. Defined.

(** [PluginManager]: the registered plugins in the order in which
    [GetFirstPlugin] / [GetNextPlugin] walk them, and the member
    [GetPluginEnabledSetting], whose body is outside the sources and is
    taken as a parameter of the registry. *)
Record PluginManager := {
  mPlugins : list PluginDescriptor;
  GetPluginEnabledSetting : PluginDescriptor → wxString;
}.

(** Modelled from the spec: the plugins that the loop
    [for (plug = pm.GetFirstPlugin(type); plug; plug = pm.GetNextPlugin(type))]
    visits, in order: "enumerate plugins of kind module". *)
Definition GetPlugins (pm : PluginManager) (type : PluginType)
  : list PluginDescriptor :=
  filter (λ plug, GetPluginType plug = type) (mPlugins pm).

(** ** The curated prompts *)

(** [XO("...")] marks a literal for translation and denotes the literal. *)
Definition XO (s : wxString) : wxString := s.

Definition SuggestedPrompts : gmap wxString wxString :=
  list_to_map [
    ("AudioUnit", XO "Audio Unit");
    ("LADSPA",    XO "&LADSPA");
    ("LV2",       XO "LV&2");
    ("Nyquist",   XO "N&yquist");
    ("Vamp",      XO "&Vamp");
    ("VST",       XO "V&ST")
  ].

(** ** [std::sort] *)

(** The requirement of the C++ standard on the comparison handed to
    [std::sort]: a strict weak ordering. *)
Record StrictWeakOrder {A : Type} (comp : A → A → bool) : Prop := {
  swo_irrefl : ∀ x, comp x x = false;
  swo_trans : ∀ x y z, comp x y = true → comp y z = true → comp x z = true;
  swo_equiv_trans : ∀ x y z,
    comp x y = false → comp y x = false →
    comp y z = false → comp z y = false →
    comp x z = false;
}.

(** The postcondition of [std::sort(first, last, comp)]: no element is
    followed, at any distance, by one that [comp] places before it. *)
Definition sorted_by {A : Type} (comp : A → A → bool) : list A → Prop :=
  StronglySorted (λ a b, comp b a = false).

(** [std::sort] is a function template of the standard library; an
    implementation is any function that rearranges the range
    ([std_sort_perm]) into sorted order ([std_sort_sorted]) and that looks
    at the elements through [comp] only ([std_sort_comp_only]: renaming
    the elements along [f] renames the result).  The order of equivalent
    elements is left to the implementation. *)
Class StdSort := {
  std_sort : ∀ {A : Type}, (A → A → bool) → list A → list A;
  std_sort_perm : ∀ {A : Type} (comp : A → A → bool) (l : list A),
    StrictWeakOrder comp → std_sort comp l ≡ₚ l;
  std_sort_sorted : ∀ {A : Type} (comp : A → A → bool) (l : list A),
    StrictWeakOrder comp → sorted_by comp (std_sort comp l);
  std_sort_comp_only :
    ∀ {A B : Type} (f : A → B) (compA : A → A → bool) (compB : B → B → bool)
      (l : list A),
      StrictWeakOrder compB →
      (∀ x y, compA x y = compB (f x) (f y)) →
      std_sort compB (f <$> l) = f <$> std_sort compA l;
}.

(** One implementation: insertion sort, which keeps equivalent elements in
    their order of arrival. *)
Fixpoint insert_sorted {A : Type} (comp : A → A → bool) (x : A) (l : list A)
  : list A :=
  match l with
  | [] => [x]
  | y :: l' => if comp y x then y :: insert_sorted comp x l' else x :: y :: l'
  end.

Definition insertion_sort {A : Type} (comp : A → A → bool) (l : list A)
  : list A :=
  foldr (insert_sorted comp) [] l.

(** Another implementation: the same on the reversed range, which puts
    equivalent elements in the reverse of their order of arrival. *)
Definition reversing_sort {A : Type} (comp : A → A → bool) (l : list A)
  : list A :=
  insertion_sort comp (reverse l).

(** ** Module discovery *)

Record Entry := {
  prompt : wxString; (* untranslated *)
  setting : wxString;
}.

Global Instance Entry_eq_dec : EqDecision Entry.
Proof. solve_decision. Defined.

(** The comparison of the lambda passed to [std::sort]:
    [a.setting < b.setting]. *)
Definition by_setting (a b : Entry) : bool :=
  String.ltb (setting a) (setting b).

Section discovery.
Context `{!StdSort}.

(** The body of the loop of [ModuleData::ModuleData()] for one plugin:
    [data] is the vector so far, the result is the vector after the
    iteration. *)
Definition visit (pm : PluginManager) (data : list Entry)
    (plug : PluginDescriptor) : list Entry :=
  let internal := GetEffectFamily plug in
  if empty internal then data (* continue *)
  else
    let prompt :=
      match SuggestedPrompts !! internal with
      | None => Msgid (GetSymbol plug)
      | Some second => second
      end in
    let setting := GetPluginEnabledSetting pm plug in
    data ++ [ {| prompt := prompt; setting := setting |} ].

(** The constructor [ModuleData::ModuleData()]: the loop over the plugins
    of type module, then the sort by [setting]. *)
Definition ModuleData (pm : PluginManager) : list Entry :=
  let data := foldl (visit pm) [] (GetPlugins pm PluginTypeModule) in
  std_sort by_setting data.

(** The state of the process that [GetModuleData] depends on: the plugin
    registry, and the function-local [static ModuleData theData], which
    is [None] until the first call constructs it. *)
Record Process := {
  pm : PluginManager;
  theData : option (list Entry);
}.

Definition GetModuleData (ps : Process) : list Entry * Process :=
  match theData ps with
  | Some data => (data, ps)
  | None =>
      let data := ModuleData (pm ps) in
      (data, {| pm := pm ps; theData := Some data |})
  end.
End discovery.

(** A process in which [GetModuleData] has not been called yet. *)
Definition fresh (pm : PluginManager) : Process :=
  {| pm := pm; theData := None |}.

(** The process after the plugin registry has changed to [pm']. *)
Definition with_registry (pm' : PluginManager) (ps : Process) : Process :=
  {| pm := pm'; theData := theData ps |}.

(** Further calls of [GetModuleData], one after each of the given states of
    the registry: the sequences returned, in the order of the calls. *)
Fixpoint further_calls `{!StdSort} (ps : Process)
    (registries : list PluginManager) : list (list Entry) :=
  match registries with
  | [] => []
  | pm' :: registries =>
      let '(data, ps) := GetModuleData (with_registry pm' ps) in
      data :: further_calls ps registries
  end.

(** A module has an effect family when its identifier is not empty. *)
Definition has_family (plug : PluginDescriptor) : Prop :=
  GetEffectFamily plug ≠ "".

Global Instance has_family_dec plug : Decision (has_family plug).
Proof. unfold has_family. apply _. Defined.

(** The entry of a module: the curated prompt of its family, or else its
    own display name, and its enabled-setting path. *)
Definition entry_of (pm : PluginManager) (plug : PluginDescriptor) : Entry :=
  {| prompt := default (Msgid (GetSymbol plug))
                 (SuggestedPrompts !! GetEffectFamily plug);
     setting := GetPluginEnabledSetting pm plug |}.

(** The modules of a registry that have an effect family, in the order of
    the iteration. *)
Definition family_modules (pm : PluginManager) : list PluginDescriptor :=
  filter has_family (GetPlugins pm PluginTypeModule).

(** Ascending order of the setting keys. *)
Definition setting_le (a b : Entry) : Prop :=
  String.le (setting a) (setting b).

(** ** The form of the panel *)

(** The two modes in which the panel runs a [ShuttleGui]. *)
Inductive teShuttleMode :=
  | eIsCreatingFromPrefs
  | eIsSavingToPrefs.

(** The calls that [PopulateOrExchange] makes on its [ShuttleGui], one
    constructor per member function, with the arguments of the call. *)
Inductive ShuttleCall :=
  | SetBorder (Border : Z)
  | StartScroller
  | EndScroller
  | StartStatic (Str : wxString)
  | EndStatic
  | StartMultiColumn (nCols : Z)
  | EndMultiColumn
  | TieCheckBox (Prompt SettingName : wxString) (bDefault : bool)
  | TieChoice (Prompt SettingName Default : wxString)
      (Choices InternalChoices : list wxString)
  | TieNumericTextBox (Prompt SettingName : wxString) (Default : Z)
      (nChars : Z).

(** The macros that the preprocessor consults in [PopulateOrExchange]. *)
Record BuildFlags := {
  WXGTK : bool;
  EXPERIMENTAL_EFFECT_MANAGEMENT : bool;
  EXPERIMENTAL_EQ_SSE_THREADED : bool;
}.

Section form.
Context `{!StdSort}.
(** The translation macro [_(...)] and [GetCustomTranslation], both outside
    the sources, and the build configuration. *)
Context (translate GetCustomTranslation : wxString → wxString).
Context (flags : BuildFlags).

Local Notation "'_' s" := (translate s) (at level 9, s at level 9).

Definition visualgroups : list wxString := [
  _ "Sorted by Effect Name";
  _ "Sorted by Publisher and Effect Name";
  _ "Sorted by Type and Effect Name";
  _ "Grouped by Publisher";
  _ "Grouped by Type"
].

Definition prefsgroups : list wxString := [
  "sortby:name";
  "sortby:publisher:name";
  "sortby:type:name";
  "groupby:publisher";
  "groupby:type"
].

(** The section "Enable Effects": the range-for over [GetModuleData()]. *)
Definition EnableEffects (data : list Entry) : list ShuttleCall :=
  [StartStatic (_ "Enable Effects")]
  ++ ((λ entry,
        TieCheckBox (GetCustomTranslation (prompt entry)) (setting entry) true)
      <$> data)
  ++ [EndStatic].

(** The section "Effect Options".  (The size adjustment of the returned
    [wxChoice] is not a call on the shuttle and leaves no trace here.) *)
Definition EffectOptions : list ShuttleCall :=
  [StartStatic (_ "Effect Options");
   StartMultiColumn 2;
   TieChoice (_ "S&ort or Group:") "/Effects/GroupBy" "sortby:name"
     visualgroups prefsgroups;
   TieNumericTextBox (_ "&Maximum effects per group (0 to disable):")
     "/Effects/MaxPerGroup"
     (if WXGTK flags then 15 else 0)
     5;
   EndMultiColumn;
   EndStatic].

(** [#ifndef EXPERIMENTAL_EFFECT_MANAGEMENT] *)
Definition PluginOptions : list ShuttleCall :=
  if EXPERIMENTAL_EFFECT_MANAGEMENT flags then []
  else
    [StartStatic (_ "Plugin Options");
     TieCheckBox (_ "Check for updated plugins when Audacity starts")
       "/Plugins/CheckForUpdates" true;
     TieCheckBox (_ "Rescan plugins next time Audacity is started")
       "/Plugins/Rescan" false;
     EndStatic].

(** [#ifdef EXPERIMENTAL_EQ_SSE_THREADED] *)
Definition InstructionSet : list ShuttleCall :=
  if EXPERIMENTAL_EQ_SSE_THREADED flags then
    [StartStatic (_ "Instruction Set");
     TieCheckBox (_ "&Use SSE/SSE2/.../AVX") "/SSE/GUI" true;
     EndStatic]
  else [].

(** [EffectsPrefs::PopulateOrExchange]: the calls made on [S], in program
    order, and the process after the call of [GetModuleData]. *)
Definition PopulateOrExchange (ps : Process) : list ShuttleCall * Process :=
  let '(data, ps) := GetModuleData ps in
  ([SetBorder 2; StartScroller]
   ++ EnableEffects data
   ++ EffectOptions
   ++ PluginOptions
   ++ InstructionSet
   ++ [EndScroller],
   ps).
End form.

(** ** The shuttle between the controls and the settings store *)

(** Modelled from the spec: a value of the settings store [gPrefs],
    "string-keyed boolean/string/numeric values". *)
Inductive PrefValue :=
  | PrefBool (b : bool)
  | PrefString (s : wxString)
  | PrefInt (n : Z).

(** Modelled from the spec: the Settings Form Builder [ShuttleGui]
    (ShuttleGui.cpp is not part of the sources).  A shuttle runs in one
    mode over the settings store and the values of the panel's bound
    controls, in the order of their creation; [mRead] and [mWritten] record
    the keys of the store it has read and written. *)
Record ShuttleGui := {
  mShuttleMode : teShuttleMode;
  gPrefs : gmap wxString PrefValue;
  mControls : list PrefValue;
  mRead : list wxString;
  mWritten : list wxString;
}.

(** Modelled from the spec: a control bound to a settings key.  "Read on
    form load": creating from the settings, the control is made with the
    stored value of its key, or the default.  "On commit ... each bound
    control's current value [is] written to its settings key": saving,
    the value of the next control of the panel goes to its key (the
    default, should the panel have no control left). *)
Definition Tie (SettingName : wxString) (Default : PrefValue)
    (S : ShuttleGui) : ShuttleGui :=
  match mShuttleMode S with
  | eIsCreatingFromPrefs =>
      let value := default Default (gPrefs S !! SettingName) in
      {| mShuttleMode := mShuttleMode S;
         gPrefs := gPrefs S;
         mControls := mControls S ++ [value];
         mRead := mRead S ++ [SettingName];
         mWritten := mWritten S |}
  | eIsSavingToPrefs =>
      let value := default Default (head (mControls S)) in
      {| mShuttleMode := mShuttleMode S;
         gPrefs := <[SettingName := value]> (gPrefs S);
         mControls := tail (mControls S);
         mRead := mRead S;
         mWritten := mWritten S ++ [SettingName] |}
  end.

(** Modelled from the spec: what one call does to the shuttle; the layout
    calls touch neither the store nor the bound controls. *)
Definition call (S : ShuttleGui) (c : ShuttleCall) : ShuttleGui :=
  match c with
  | TieCheckBox _ SettingName bDefault => Tie SettingName (PrefBool bDefault) S
  | TieChoice _ SettingName Default _ _ => Tie SettingName (PrefString Default) S
  | TieNumericTextBox _ SettingName Default _ =>
      Tie SettingName (PrefInt Default) S
  | SetBorder _ | StartScroller | EndScroller | StartStatic _ | EndStatic
  | StartMultiColumn _ | EndMultiColumn => S
  end.

(** A fresh [ShuttleGui S(this, mode)] over the panel's controls. *)
Definition ShuttleGui_new (mode : teShuttleMode)
    (prefs : gmap wxString PrefValue) (controls : list PrefValue)
  : ShuttleGui :=
  {| mShuttleMode := mode; gPrefs := prefs; mControls := controls;
     mRead := []; mWritten := [] |}.

(** The settings key that a call binds, if it binds one. *)
Definition bound_key (c : ShuttleCall) : option wxString :=
  match c with
  | TieCheckBox _ SettingName _ => Some SettingName
  | TieChoice _ SettingName _ _ _ => Some SettingName
  | TieNumericTextBox _ SettingName _ _ => Some SettingName
  | _ => None
  end.

(** The calls that ask for a choice control or for a numeric field. *)
Definition choice_or_numeric (c : ShuttleCall) : bool :=
  match c with
  | TieChoice _ _ _ _ _ | TieNumericTextBox _ _ _ _ => true
  | _ => false
  end.

Section panel.
Context `{!StdSort}.
Context (translate GetCustomTranslation : wxString → wxString).
Context (flags : BuildFlags).

(** [EffectsPrefs::Populate], called by the constructor of the panel, which
    has no controls yet: the shuttle at the end of the call and the
    process. *)
Definition Populate (ps : Process) (prefs : gmap wxString PrefValue)
  : ShuttleGui * Process :=
  let S := ShuttleGui_new eIsCreatingFromPrefs prefs [] in
  let '(calls, ps) :=
    PopulateOrExchange translate GetCustomTranslation flags ps in
  (foldl call S calls, ps).

(** [EffectsPrefs::Commit] on a panel whose bound controls hold [controls]:
    the returned flag, the shuttle at the end of the call and the
    process. *)
Definition Commit (controls : list PrefValue) (ps : Process)
    (prefs : gmap wxString PrefValue) : bool * ShuttleGui * Process :=
  let S := ShuttleGui_new eIsSavingToPrefs prefs controls in
  let '(calls, ps) :=
    PopulateOrExchange translate GetCustomTranslation flags ps in
  (true, foldl call S calls, ps).
End panel.

(** ** The panel object *)

(** The panel: the title handed to the base class [PrefsPanel], and the
    values that the bound controls of its window hold, in the order of
    their creation. *)
Record EffectsPrefs := {
  mTitle : wxString;
  mWindow : list PrefValue;
}.

(** [EffectsPrefs::EffectsPrefs]: the base class gets the title
    [_("Effects")] and the body calls [Populate], which makes the controls
    of the window.  The result is the panel, the settings store and the
    process after the call. *)
Definition EffectsPrefs_new `{!StdSort}
    (translate GetCustomTranslation : wxString → wxString)
    (flags : BuildFlags) (ps : Process) (prefs : gmap wxString PrefValue)
  : EffectsPrefs * gmap wxString PrefValue * Process :=
  let '(shuttle, ps) :=
    Populate translate GetCustomTranslation flags ps prefs in
  ({| mTitle := translate "Effects"; mWindow := mControls shuttle |},
   gPrefs shuttle, ps).

(** The settings key and the default that a call binds, if it binds. *)
Definition binding (c : ShuttleCall) : option (wxString * PrefValue) :=
  match c with
  | TieCheckBox _ SettingName bDefault => Some (SettingName, PrefBool bDefault)
  | TieChoice _ SettingName Default _ _ => Some (SettingName, PrefString Default)
  | TieNumericTextBox _ SettingName Default _ =>
      Some (SettingName, PrefInt Default)
  | _ => None
  end.

(** The value with which a control bound to [b] is created from the store:
    the stored value of the key, or the default. *)
Definition stored_or_default (prefs : gmap wxString PrefValue)
    (b : wxString * PrefValue) : PrefValue :=
  default b.2 (prefs !! b.1).

(** The blocks that the layout calls open and close. *)
Inductive Block :=
  | ScrollerBlock
  | StaticBlock
  | MultiColumnBlock.

Global Instance Block_eq_dec : EqDecision Block.
Proof. solve_decision. Defined.

(** A sequence of calls is well nested under the open blocks [open],
    innermost first, when every call that ends a block ends the innermost
    open block, every bound control is asked for inside a static box, and
    no block is open at the end. *)
Fixpoint well_nested (open : list Block) (calls : list ShuttleCall) : bool :=
  match calls with
  | [] => bool_decide (open = [])
  | c :: calls =>
      match c with
      | SetBorder _ => well_nested open calls
      | StartScroller => well_nested (ScrollerBlock :: open) calls
      | StartStatic _ => well_nested (StaticBlock :: open) calls
      | StartMultiColumn _ => well_nested (MultiColumnBlock :: open) calls
      | EndScroller =>
          match open with
          | ScrollerBlock :: open => well_nested open calls
          | _ => false
          end
      | EndStatic =>
          match open with
          | StaticBlock :: open => well_nested open calls
          | _ => false
          end
      | EndMultiColumn =>
          match open with
          | MultiColumnBlock :: open => well_nested open calls
          | _ => false
          end
      | TieCheckBox _ _ _ | TieChoice _ _ _ _ _ | TieNumericTextBox _ _ _ _ =>
          bool_decide (StaticBlock ∈ open) && well_nested open calls
      end
  end.

(** The label of the control that a call asks for, if it asks for one. *)
Definition control_label (c : ShuttleCall) : option wxString :=
  match c with
  | TieCheckBox Prompt _ _ => Some Prompt
  | TieChoice Prompt _ _ _ _ => Some Prompt
  | TieNumericTextBox Prompt _ _ _ => Some Prompt
  | _ => None
  end.

(** A character of a [wxString]. *)
Abbreviation wxChar := Stdlib.Strings.Ascii.ascii (only parsing).

(** The upper-case form of a Latin letter; other characters stay. *)
Definition upper (c : wxChar) : wxChar :=
  let n := Stdlib.Strings.Ascii.N_of_ascii c in
  if ((97 <=? n) && (n <=? 122))%N
  then Stdlib.Strings.Ascii.ascii_of_N (n - 32) else c.

(** The accelerator character of a label, by the convention of the
    toolkit: the character after the first ampersand that is not doubled,
    without regard to case. *)
Fixpoint accelerator (label : wxString) : option wxChar :=
  match label with
  | EmptyString => None
  | String c rest =>
      if Stdlib.Strings.Ascii.eqb c "&"%char then
        match rest with
        | EmptyString => None
        | String c' rest' =>
            if Stdlib.Strings.Ascii.eqb c' "&"%char then accelerator rest'
            else Some (upper c')
        end
      else accelerator rest
  end.

(** The accelerator characters of the controls of a form, in the order of
    the calls. *)
Definition accelerators (calls : list ShuttleCall) : list wxChar :=
  omap (λ c, control_label c ≫= accelerator) calls.

(** ** Sample registries *)

Definition module (id family msgid : wxString) : PluginDescriptor :=
  {| GetID := id; GetPluginType := PluginTypeModule;
     GetSymbol := {| Msgid := msgid |};
     GetEffectFamily := family |}.

(** A registry whose enabled-setting path of a plugin is
    ["/Plugins/Enable/"] followed by the plugin's id. *)
Definition registry_by_id (plugins : list PluginDescriptor) : PluginManager :=
  {| mPlugins := plugins;
     GetPluginEnabledSetting := λ plug, "/Plugins/Enable/" +:+ GetID plug |}.

(** A registry whose enabled-setting path of a plugin is made of the
    plugin's effect family. *)
Definition registry_by_family (plugins : list PluginDescriptor)
  : PluginManager :=
  {| mPlugins := plugins;
     GetPluginEnabledSetting :=
       λ plug, "/" +:+ GetEffectFamily plug +:+ "/Enable" |}.

(** The scenario of the specification: three modules, of which "MyCo" has
    no curated prompt. *)
Definition scenario : list PluginDescriptor := [
  module "LADSPA" "LADSPA" "LADSPA Effects";
  module "AAA" "MyCo" "MyCo Effects";
  module "VST" "VST" "VST Effects"
].

(** Two modules of one effect family without a curated prompt, each with
    a display name of its own. *)
Definition twin_a : PluginDescriptor := module "twin-a" "MyCo" "MyCo One".
Definition twin_b : PluginDescriptor := module "twin-b" "MyCo" "MyCo Two".

(** The entries of the two twins, whose setting keys coincide. *)
Definition twin_entry (first : bool) : Entry :=
  {| prompt := if first then "MyCo One" else "MyCo Two";
     setting := "/MyCo/Enable" |}.

(** A module without a display name, one without an effect family, and an
    effect of the family of the first. *)
Definition nameless : PluginDescriptor := module "nameless" "Acme" "".
Definition familyless : PluginDescriptor := module "builtin" "" "Builtin Effects".
Definition an_effect : PluginDescriptor :=
  {| GetID := "echo"; GetPluginType := PluginTypeEffect;
     GetSymbol := {| Msgid := "Echo" |};
     GetEffectFamily := "Acme" |}.

(** * Properties *)

(** ** The order of the setting keys *)

Lemma ltb_leb (s1 s2 : wxString) :
  String.ltb s1 s2 = negb (String.leb s2 s1).
Proof.
  unfold String.ltb, String.leb. rewrite (String.compare_antisym s1 s2).
  by destruct (String.compare s2 s1).
Qed.

Lemma ltb_false_le (s1 s2 : wxString) :
  String.ltb s1 s2 = false ↔ String.le s2 s1.
Proof.
  rewrite ltb_leb, negb_false_iff. unfold String.le.
  by rewrite Is_true_true.
Qed.

Lemma ltb_true_not_le (s1 s2 : wxString) :
  String.ltb s1 s2 = true ↔ ¬ String.le s2 s1.
Proof. rewrite <-ltb_false_le. by destruct (String.ltb s1 s2). Qed.

Lemma StrictWeakOrder_ltb : StrictWeakOrder String.ltb.
Proof.
  split.
  - intros x. by apply ltb_false_le.
  - intros x y z. rewrite !ltb_true_not_le. intros Hyx Hzy Hzx.
    destruct (total String.le x y) as [Hxy|]; [|done].
    apply Hzy. by trans x.
  - intros x y z. rewrite !ltb_false_le. intros ? _ ? _. by trans y.
Qed.

Lemma StrictWeakOrder_preimage {A B : Type} (f : A → B) (comp : B → B → bool) :
  StrictWeakOrder comp → StrictWeakOrder (λ x y, comp (f x) (f y)).
Proof. intros [Hi Ht He]. split; eauto. Qed.

Lemma StrictWeakOrder_by_setting : StrictWeakOrder by_setting.
Proof. apply (StrictWeakOrder_preimage setting), StrictWeakOrder_ltb. Qed.

(** In a strict weak ordering, "not before" is transitive. *)
Lemma swo_not_before_trans {A : Type} (comp : A → A → bool) (x y z : A) :
  StrictWeakOrder comp →
  comp y x = false → comp z y = false → comp z x = false.
Proof.
  intros [Hi Ht He] Hyx Hzy.
  destruct (comp z x) eqn:Hzx; [|done].
  destruct (comp y z) eqn:Hyz.
  { by rewrite (Ht y z x) in Hyx. }
  destruct (comp x y) eqn:Hxy.
  { by rewrite (Ht z x y) in Hzy. }
  by rewrite (He z y x) in Hzx.
Qed.

Lemma swo_asym {A : Type} (comp : A → A → bool) (x y : A) :
  StrictWeakOrder comp → comp x y = true → comp y x = false.
Proof.
  intros [Hi Ht He] Hxy. destruct (comp y x) eqn:Hyx; [|done].
  by rewrite <-(Hi x), (Ht x y x).
Qed.

(** ** The implementations of [std::sort] *)

Section insertion.
Context {A : Type} (comp : A → A → bool).

Lemma insert_sorted_perm (x : A) (l : list A) :
  insert_sorted comp x l ≡ₚ x :: l.
Proof.
  induction l as [|y l IH]; simpl; [done|].
  destruct (comp y x); [|done].
  rewrite IH. apply Permutation_swap.
Qed.

Lemma insertion_sort_perm (l : list A) : insertion_sort comp l ≡ₚ l.
Proof.
  induction l as [|x l IH]; simpl; [done|].
  by rewrite insert_sorted_perm, IH.
Qed.

Lemma insert_sorted_sorted (x : A) (l : list A) :
  StrictWeakOrder comp →
  sorted_by comp l → sorted_by comp (insert_sorted comp x l).
Proof.
  intros Hswo. unfold sorted_by.
  induction l as [|y l IH]; simpl; intros Hl.
  { repeat constructor. }
  apply StronglySorted_cons in Hl as [Hy Hl].
  destruct (comp y x) eqn:Hyx.
  - apply StronglySorted_cons. split; [|by apply IH].
    rewrite insert_sorted_perm. constructor; [|done].
    by apply swo_asym.
  - apply StronglySorted_cons. split.
    + constructor; [done|].
      eapply Forall_impl; [exact Hy|]. simpl. intros z Hzy.
      by apply (swo_not_before_trans comp x y z).
    + by apply StronglySorted_cons.
Qed.

Lemma insertion_sort_sorted (l : list A) :
  StrictWeakOrder comp → sorted_by comp (insertion_sort comp l).
Proof.
  intros Hswo. induction l as [|x l IH]; simpl.
  - constructor.
  - by apply insert_sorted_sorted.
Qed.
End insertion.

Section renaming.
Context {A B : Type} (f : A → B).
Context (compA : A → A → bool) (compB : B → B → bool).
Hypothesis comp_f : ∀ x y, compA x y = compB (f x) (f y).

Lemma insert_sorted_fmap (x : A) (l : list A) :
  insert_sorted compB (f x) (f <$> l) = f <$> insert_sorted compA x l.
Proof.
  induction l as [|y l IH]; [done|].
  rewrite fmap_cons. simpl insert_sorted. rewrite comp_f.
  destruct (compB (f y) (f x)); [|done].
  by rewrite fmap_cons, IH.
Qed.

Lemma insertion_sort_fmap (l : list A) :
  insertion_sort compB (f <$> l) = f <$> insertion_sort compA l.
Proof.
  induction l as [|x l IH]; [done|].
  change (insert_sorted compB (f x) (insertion_sort compB (f <$> l))
          = f <$> insert_sorted compA x (insertion_sort compA l)).
  by rewrite IH, insert_sorted_fmap.
Qed.
End renaming.

(** Insertion sort is an implementation of [std::sort]. *)
Definition insertion_StdSort : StdSort :=
  {| std_sort := @insertion_sort;
     std_sort_perm := λ A comp l _, insertion_sort_perm comp l;
     std_sort_sorted := @insertion_sort_sorted;
     std_sort_comp_only :=
       λ A B f compA compB l _ Hf, insertion_sort_fmap f compA compB Hf l |}.

(** So is the sort that reverses the range first. *)
Definition reversing_StdSort : StdSort.
Proof.
  refine {| std_sort := @reversing_sort |}; unfold reversing_sort.
  - intros A comp l _. by rewrite insertion_sort_perm, reverse_Permutation.
  - intros A comp l Hswo. by apply insertion_sort_sorted.
  - intros A B f compA compB l _ Hf.
    by rewrite <-fmap_reverse, (insertion_sort_fmap f compA compB Hf).
Defined.

(** ** Module discovery *)

Lemma empty_spec (s : wxString) : empty s = true ↔ s = "".
Proof. by destruct s. Qed.

Lemma StronglySorted_weaken {A : Type} (R1 R2 : relation A) (l : list A) :
  (∀ x y, R1 x y → R2 x y) → StronglySorted R1 l → StronglySorted R2 l.
Proof. intros HR. induction 1; constructor; eauto using Forall_impl. Qed.

Section discovery_facts.
Context `{!StdSort}.

(** The loop appends to the vector the entries of the visited plugins that
    have a family, in the order of the visit. *)
Lemma foldl_visit (pm : PluginManager) (plugs : list PluginDescriptor)
    (data : list Entry) :
  foldl (visit pm) data plugs
  = data ++ (entry_of pm <$> filter has_family plugs).
Proof.
  revert data. induction plugs as [|plug plugs IH]; intros data; simpl.
  { by rewrite app_nil_r. }
  rewrite IH, filter_cons. unfold visit.
  destruct (decide (has_family plug)) as [Hfam|Hfam]; unfold has_family in Hfam.
  - destruct (empty (GetEffectFamily plug)) eqn:He.
    { by apply empty_spec in He. }
    rewrite fmap_cons, <-app_assoc. unfold entry_of at 2.
    by destruct (SuggestedPrompts !! GetEffectFamily plug).
  - apply dec_stable in Hfam. by rewrite Hfam.
Qed.

Lemma ModuleData_unsorted (pm : PluginManager) :
  ModuleData pm = std_sort by_setting (entry_of pm <$> family_modules pm).
Proof. unfold ModuleData. by rewrite foldl_visit. Qed.

Lemma ModuleData_perm (pm : PluginManager) :
  ModuleData pm ≡ₚ entry_of pm <$> family_modules pm.
Proof.
  rewrite ModuleData_unsorted.
  apply std_sort_perm, StrictWeakOrder_by_setting.
Qed.

Lemma ModuleData_sorted (pm : PluginManager) :
  StronglySorted setting_le (ModuleData pm).
Proof.
  rewrite ModuleData_unsorted.
  pose proof (std_sort_sorted by_setting (entry_of pm <$> family_modules pm)
                StrictWeakOrder_by_setting) as Hs.
  unfold sorted_by in Hs.
  eapply StronglySorted_weaken; [|exact Hs].
  intros a b. unfold by_setting, setting_le. by rewrite ltb_false_le.
Qed.

Lemma GetModuleData_fresh (pm : PluginManager) :
  (GetModuleData (fresh pm)).1 = ModuleData pm.
Proof. done. Qed.
End discovery_facts.

Lemma entry_of_setting (pm1 pm2 : PluginManager) :
  GetPluginEnabledSetting pm1 = GetPluginEnabledSetting pm2 →
  entry_of pm1 = entry_of pm2.
Proof. unfold entry_of. by intros ->. Qed.

Lemma NoDup_fmap_elem_inj {A B : Type} (f : A → B) (l : list A) (x y : A) :
  NoDup (f <$> l) → x ∈ l → y ∈ l → f x = f y → x = y.
Proof.
  induction l as [|z l IH]; [by intros _ ?%elem_of_nil|].
  rewrite fmap_cons, NoDup_cons, !elem_of_cons.
  intros [Hz Hl] [->|Hx] [->|Hy] Hf; auto.
  - destruct Hz. rewrite Hf. by apply list_elem_of_fmap_2.
  - destruct Hz. rewrite <-Hf. by apply list_elem_of_fmap_2.
Qed.

Lemma filter_fmap_length {A B : Type} (f : A → B) (P : B → Prop)
    `{∀ y, Decision (P y)} (l : list A) :
  length (filter P (f <$> l)) = length (filter (λ x, P (f x)) l).
Proof.
  induction l as [|x l IH]; [done|].
  rewrite fmap_cons, !filter_cons. destruct (decide (P (f x))); simpl; lia.
Qed.

(** Whatever the implementation of [std::sort], the two twins leave the
    sort in the order in which the iteration met them, or both times in
    the other order: the two iteration orders give different sequences. *)
Lemma twins_follow_iteration `{!StdSort} :
  ModuleData (registry_by_family [twin_a; twin_b])
  ≠ ModuleData (registry_by_family [twin_b; twin_a]).
Proof.
  rewrite !ModuleData_unsorted.
  change (entry_of _ <$> family_modules (registry_by_family [twin_a; twin_b]))
    with (twin_entry <$> [true; false]).
  change (entry_of _ <$> family_modules (registry_by_family [twin_b; twin_a]))
    with ((twin_entry ∘ negb) <$> [true; false]).
  pose (equiv := λ _ _ : bool, false).
  assert (StrictWeakOrder equiv) as Hequiv by (by split).
  rewrite (std_sort_comp_only twin_entry equiv by_setting)
    by (done || apply StrictWeakOrder_by_setting).
  rewrite (std_sort_comp_only (twin_entry ∘ negb) equiv by_setting)
    by (done || apply StrictWeakOrder_by_setting).
  pose proof (std_sort_perm equiv [true; false] Hequiv) as Hperm.
  symmetry in Hperm. apply Permutation_length_2_inv in Hperm as [-> | ->];
    discriminate.
Qed.

(** C1: for every registry, the first call of [GetModuleData] returns
    exactly one entry for each plugin of kind module whose effect-family
    identifier is not empty and none for the others: the result is a
    rearrangement of the entries of those modules, it has as many entries
    as there are such modules, and it is empty when the registry has no
    module. *)
Theorem C1_one_entry_per_family_module `{!StdSort} (pm : PluginManager) :
  let data := (GetModuleData (fresh pm)).1 in
  data ≡ₚ entry_of pm <$> filter has_family (GetPlugins pm PluginTypeModule)
  ∧ length data = length (filter has_family (GetPlugins pm PluginTypeModule))
  ∧ (GetPlugins pm PluginTypeModule = [] → data = []).
Proof.
  simpl. pose proof (ModuleData_perm pm) as Hperm.
  unfold family_modules in Hperm. split_and!.
  - done.
  - by rewrite Hperm, length_fmap.
  - intros Hnone. rewrite Hnone in Hperm. by apply Permutation_nil_r.
Qed.

Lemma C1_no_module_no_entry :
  (GetModuleData (H := insertion_StdSort)
     (fresh (registry_by_id [an_effect]))).1 = [].
Proof.
  apply (C1_one_entry_per_family_module (registry_by_id [an_effect])).
  reflexivity.
Defined.

(** C2 (amended): the sequence returned by [GetModuleData] is sorted
    ascending by the setting key; for two iteration orders of the same
    plugins the two results hold the same entries and the same sequence of
    setting keys, and they are the same sequence when the setting keys of
    the entries are pairwise distinct. *)
Theorem C2_sorted_and_keys_independent_of_iteration `{!StdSort}
    (pm1 pm2 : PluginManager) :
  mPlugins pm1 ≡ₚ mPlugins pm2 →
  GetPluginEnabledSetting pm1 = GetPluginEnabledSetting pm2 →
  let data1 := (GetModuleData (fresh pm1)).1 in
  let data2 := (GetModuleData (fresh pm2)).1 in
  StronglySorted setting_le data1
  ∧ data1 ≡ₚ data2
  ∧ setting <$> data1 = setting <$> data2
  ∧ (NoDup (setting <$> data1) → data1 = data2).
Proof.
  intros Hplugs Hsetting. simpl.
  assert (ModuleData pm1 ≡ₚ ModuleData pm2) as Hperm.
  { rewrite !ModuleData_perm. unfold family_modules, GetPlugins.
    rewrite (entry_of_setting pm1 pm2 Hsetting). by rewrite Hplugs. }
  pose proof (ModuleData_sorted pm1) as Hsorted1.
  pose proof (ModuleData_sorted pm2) as Hsorted2.
  split_and!; [done..| |].
  - apply (StronglySorted_unique String.le).
    + by apply (StronglySorted_fmap _ setting_le).
    + by apply (StronglySorted_fmap _ setting_le).
    + by rewrite Hperm.
  - intros Hdistinct.
    apply (StronglySorted_unique_strong setting_le); [|done..].
    intros e1 e2 He1 He2 H12 H21.
    apply (NoDup_fmap_elem_inj setting (ModuleData pm1)); [done..| |].
    + by rewrite Hperm.
    + by apply (anti_symm String.le).
Qed.

Lemma C2_scenario_either_order :
  (GetModuleData (H := insertion_StdSort) (fresh (registry_by_id scenario))).1
  = (GetModuleData (H := insertion_StdSort)
       (fresh (registry_by_id (reverse scenario)))).1.
Proof.
  apply (C2_sorted_and_keys_independent_of_iteration
           (registry_by_id scenario) (registry_by_id (reverse scenario))).
  - symmetry. apply reverse_Permutation.
  - reflexivity.
  - apply (bool_decide_unpack _). by vm_compute.
Defined.

(** C2 as stated fails: the twins have equal setting keys, and the two
    orders in which a registry can present them give two different
    sequences. *)
Lemma C2_equal_keys_follow_iteration :
  let pm1 := registry_by_family [twin_a; twin_b] in
  let pm2 := registry_by_family [twin_b; twin_a] in
  mPlugins pm1 ≡ₚ mPlugins pm2
  ∧ GetPluginEnabledSetting pm1 = GetPluginEnabledSetting pm2
  ∧ (GetModuleData (H := insertion_StdSort) (fresh pm1)).1
    = [twin_entry true; twin_entry false]
  ∧ (GetModuleData (H := insertion_StdSort) (fresh pm2)).1
    = [twin_entry false; twin_entry true]
  ∧ (GetModuleData (H := insertion_StdSort) (fresh pm1)).1
    ≠ (GetModuleData (H := insertion_StdSort) (fresh pm2)).1.
Proof.
  cbv zeta. split_and!.
  - apply Permutation_swap.
  - reflexivity.
  - by vm_compute.
  - by vm_compute.
  - apply twins_follow_iteration.
Qed.

(** C3: for every module of the registry with a non-empty family
    identifier, the result of [GetModuleData] holds an entry with the
    module's setting key whose prompt is the curated label when the family
    is a key of [SuggestedPrompts], and the module's own [Msgid] when it
    is not. *)
Theorem C3_prompt_curated_or_generic `{!StdSort} (pm : PluginManager)
    (plug : PluginDescriptor) :
  plug ∈ GetPlugins pm PluginTypeModule →
  GetEffectFamily plug ≠ "" →
  let data := (GetModuleData (fresh pm)).1 in
  (∀ label, SuggestedPrompts !! GetEffectFamily plug = Some label →
     {| prompt := label; setting := GetPluginEnabledSetting pm plug |} ∈ data)
  ∧ (SuggestedPrompts !! GetEffectFamily plug = None →
     {| prompt := Msgid (GetSymbol plug);
        setting := GetPluginEnabledSetting pm plug |} ∈ data).
Proof.
  intros Hplug Hfam. simpl.
  assert (entry_of pm plug ∈ ModuleData pm) as Hentry.
  { rewrite ModuleData_perm. apply list_elem_of_fmap_2.
    by apply list_elem_of_filter. }
  unfold entry_of in Hentry.
  split; [intros label Hlabel|intros Hlabel]; by rewrite Hlabel in Hentry.
Qed.

Lemma C3_scenario_prompts :
  {| prompt := "&LADSPA"; setting := "/Plugins/Enable/LADSPA" |}
    ∈ (GetModuleData (H := insertion_StdSort)
         (fresh (registry_by_id scenario))).1
  ∧ {| prompt := "MyCo Effects"; setting := "/Plugins/Enable/AAA" |}
    ∈ (GetModuleData (H := insertion_StdSort)
         (fresh (registry_by_id scenario))).1.
Proof.
  split.
  - apply (C3_prompt_curated_or_generic (registry_by_id scenario)
             (module "LADSPA" "LADSPA" "LADSPA Effects")).
    + by apply (bool_decide_unpack _); vm_compute.
    + discriminate.
    + by vm_compute.
  - apply (C3_prompt_curated_or_generic (registry_by_id scenario)
             (module "AAA" "MyCo" "MyCo Effects")).
    + by apply (bool_decide_unpack _); vm_compute.
    + discriminate.
    + by vm_compute.
Defined.

Lemma GetModuleData_cached `{!StdSort} (ps : Process) (data : list Entry) :
  theData ps = Some data → GetModuleData ps = (data, ps).
Proof. unfold GetModuleData. by intros ->. Qed.

Lemma GetModuleData_fills `{!StdSort} (ps : Process) :
  theData (GetModuleData ps).2 = Some (GetModuleData ps).1.
Proof. unfold GetModuleData. by destruct (theData ps) eqn:Hdata. Qed.

Lemma further_calls_cached `{!StdSort} (ps : Process) (data : list Entry)
    (registries : list PluginManager) :
  theData ps = Some data → Forall (λ data', data' = data) (further_calls ps registries).
Proof.
  revert ps. induction registries as [|pm' registries IH]; intros ps Hdata.
  { constructor. }
  simpl. rewrite (GetModuleData_cached (with_registry pm' ps) data) by done.
  constructor; [done|]. by apply IH.
Qed.

(** C4: a call of [GetModuleData] and any later call in the same process
    return the same sequence, whatever has become of the registry in
    between: the first call leaves its result in [theData], and every
    later call returns [theData] and leaves it as it is. *)
Theorem C4_later_calls_return_first_result `{!StdSort} (ps : Process)
    (pm' : PluginManager) (registries : list PluginManager) :
  let '(data1, ps1) := GetModuleData ps in
  let '(data2, ps2) := GetModuleData (with_registry pm' ps1) in
  data2 = data1
  ∧ theData ps1 = Some data1
  ∧ theData ps2 = Some data1
  ∧ Forall (λ data, data = data1) (further_calls ps1 registries).
Proof.
  pose proof (GetModuleData_fills ps) as Hfill.
  destruct (GetModuleData ps) as [data1 ps1]. simpl in Hfill.
  rewrite (GetModuleData_cached (with_registry pm' ps1) data1) by done.
  split_and!; [done..|]. by apply further_calls_cached.
Qed.

(** C5: entries with equal setting keys are all retained: for every key,
    the result of [GetModuleData] has as many entries with that key as
    the registry has modules with a family that resolve to it.  Their
    relative order is left open: on the twins, one implementation of
    [std::sort] returns them in the order of the iteration and another in
    the reverse order. *)
Theorem C5_equal_keys_all_retained :
  (∀ (H : StdSort) (pm : PluginManager) (key : wxString),
     length (filter (λ entry, setting entry = key)
               (GetModuleData (fresh pm)).1)
     = length (filter (λ plug, GetPluginEnabledSetting pm plug = key)
                 (filter has_family (GetPlugins pm PluginTypeModule))))
  ∧ (GetModuleData (H := insertion_StdSort)
       (fresh (registry_by_family [twin_a; twin_b]))).1
    = [twin_entry true; twin_entry false]
  ∧ (GetModuleData (H := reversing_StdSort)
       (fresh (registry_by_family [twin_a; twin_b]))).1
    = [twin_entry false; twin_entry true].
Proof.
  split_and!; [|by vm_compute..].
  intros H pm key. simpl.
  rewrite (ModuleData_perm pm).
  by rewrite (filter_fmap_length (entry_of pm) (λ entry, setting entry = key)).
Qed.

(** C9: whether a module gets an entry depends only on whether its
    family identifier is empty: two registries whose modules have, one by
    one, family identifiers that are both empty or both not give results
    of the same length, the number of non-empty identifiers, whatever the
    display names, the setting paths and the families themselves (curated
    or not) are. *)
Theorem C9_inclusion_by_family_only `{!StdSort} (pm1 pm2 : PluginManager) :
  (λ plug, empty (GetEffectFamily plug)) <$> GetPlugins pm1 PluginTypeModule
  = (λ plug, empty (GetEffectFamily plug)) <$> GetPlugins pm2 PluginTypeModule →
  length (GetModuleData (fresh pm1)).1 = length (GetModuleData (fresh pm2)).1
  ∧ length (GetModuleData (fresh pm1)).1
    = length (filter (λ family, family ≠ "")
                (GetEffectFamily <$> GetPlugins pm1 PluginTypeModule)).
Proof.
  intros Hfamilies. simpl.
  assert (∀ pm, length (ModuleData pm)
                = length (filter (λ none, none = false)
                            ((λ plug, empty (GetEffectFamily plug))
                             <$> GetPlugins pm PluginTypeModule)))
    as Hcount.
  { intros pm. rewrite (ModuleData_perm pm), length_fmap.
    rewrite (filter_fmap_length (λ plug, empty (GetEffectFamily plug))
               (λ none, none = false)).
    unfold family_modules. f_equal. apply list_filter_iff.
    intros plug. unfold has_family. rewrite <-empty_spec.
    by destruct (empty (GetEffectFamily plug)). }
  split; [by rewrite !Hcount, Hfamilies|].
  rewrite (ModuleData_perm pm1), length_fmap.
  by rewrite (filter_fmap_length GetEffectFamily (λ family, family ≠ "")).
Qed.

Lemma C9_names_and_paths_do_not_matter :
  length (GetModuleData (H := insertion_StdSort)
            (fresh (registry_by_id [nameless; familyless; an_effect]))).1
  = length (GetModuleData (H := insertion_StdSort)
              (fresh (registry_by_family
                        [module "ladspa" "LADSPA" "LADSPA Effects";
                         module "plain" "" ""]))).1.
Proof.
  apply (C9_inclusion_by_family_only
           (registry_by_id [nameless; familyless; an_effect])
           (registry_by_family
              [module "ladspa" "LADSPA" "LADSPA Effects";
               module "plain" "" ""])).
  reflexivity.
Defined.

(** A module without a display name and with a family has an entry, with
    the empty prompt. *)
Example nameless_module_has_entry :
  (GetModuleData (H := insertion_StdSort)
     (fresh (registry_by_id [nameless; familyless; an_effect]))).1
  = [ {| prompt := ""; setting := "/Plugins/Enable/nameless" |} ].
Proof. by vm_compute. Qed.

(** The scenario of the specification, under every implementation of
    [std::sort]. *)
Lemma scenario_result `{!StdSort} :
  (GetModuleData (fresh (registry_by_id scenario))).1
  = [ {| prompt := "MyCo Effects"; setting := "/Plugins/Enable/AAA" |};
      {| prompt := "&LADSPA"; setting := "/Plugins/Enable/LADSPA" |};
      {| prompt := "V&ST"; setting := "/Plugins/Enable/VST" |} ].
Proof.
  simpl.
  assert (entry_of (registry_by_id scenario)
            <$> family_modules (registry_by_id scenario)
          = [ {| prompt := "&LADSPA"; setting := "/Plugins/Enable/LADSPA" |};
              {| prompt := "MyCo Effects"; setting := "/Plugins/Enable/AAA" |};
              {| prompt := "V&ST"; setting := "/Plugins/Enable/VST" |} ])
    as Hdata by (by vm_compute).
  pose proof (ModuleData_perm (registry_by_id scenario)) as Hperm.
  rewrite Hdata in Hperm.
  apply (StronglySorted_unique_strong setting_le).
  - intros e1 e2 He1 He2 H12 H21. rewrite Hperm in He1.
    assert (setting e1 = setting e2) as Hkey by (by apply (anti_symm String.le)).
    rewrite !elem_of_cons, elem_of_nil in He1, He2.
    destruct He1 as [->|[->|[->|[]]]], He2 as [->|[->|[->|[]]]];
      done || discriminate Hkey.
  - apply ModuleData_sorted.
  - apply (bool_decide_unpack _). by vm_compute.
  - rewrite Hperm. apply Permutation_swap.
Qed.

(** ** The panel *)

Lemma omap_bound_key_cons (c : ShuttleCall) (calls : list ShuttleCall) :
  omap bound_key (c :: calls)
  = option_list (bound_key c) ++ omap bound_key calls.
Proof. simpl. by destruct (bound_key c). Qed.

(** A shuttle that creates from the settings reads the bound key of a
    call and writes nothing. *)
Lemma call_creating (c : ShuttleCall) (S : ShuttleGui) :
  mShuttleMode S = eIsCreatingFromPrefs →
  mShuttleMode (call S c) = eIsCreatingFromPrefs
  ∧ mRead (call S c) = mRead S ++ option_list (bound_key c)
  ∧ mWritten (call S c) = mWritten S
  ∧ gPrefs (call S c) = gPrefs S.
Proof.
  intros Hmode.
  destruct c; simpl; unfold Tie; rewrite ?Hmode; simpl;
    by rewrite ?app_nil_r.
Qed.

Lemma creating_reads (calls : list ShuttleCall) (S : ShuttleGui) :
  mShuttleMode S = eIsCreatingFromPrefs →
  mRead (foldl call S calls) = mRead S ++ omap bound_key calls
  ∧ mWritten (foldl call S calls) = mWritten S
  ∧ gPrefs (foldl call S calls) = gPrefs S.
Proof.
  revert S. induction calls as [|c calls IH]; intros S Hmode.
  { simpl. by rewrite app_nil_r. }
  destruct (call_creating c S Hmode) as (Hmode' & Hread & Hwritten & Hprefs).
  destruct (IH (call S c) Hmode') as (IHread & IHwritten & IHprefs).
  rewrite omap_bound_key_cons. simpl foldl.
  rewrite IHread, IHwritten, IHprefs, Hread, Hwritten, Hprefs.
  by rewrite <-app_assoc.
Qed.

(** A shuttle that saves to the settings writes the bound key of a call,
    reads nothing, and leaves every other key of the store as it was. *)
Lemma call_saving (c : ShuttleCall) (S : ShuttleGui) :
  mShuttleMode S = eIsSavingToPrefs →
  mShuttleMode (call S c) = eIsSavingToPrefs
  ∧ mWritten (call S c) = mWritten S ++ option_list (bound_key c)
  ∧ mRead (call S c) = mRead S
  ∧ ∀ key, key ∉ option_list (bound_key c) →
      gPrefs (call S c) !! key = gPrefs S !! key.
Proof.
  intros Hmode.
  destruct c; simpl; unfold Tie; rewrite ?Hmode; simpl;
    rewrite ?app_nil_r; split_and!; try done;
    intros key Hkey; apply lookup_insert_ne; set_solver.
Qed.

Lemma saving_writes (calls : list ShuttleCall) (S : ShuttleGui) :
  mShuttleMode S = eIsSavingToPrefs →
  mWritten (foldl call S calls) = mWritten S ++ omap bound_key calls
  ∧ mRead (foldl call S calls) = mRead S
  ∧ ∀ key, key ∉ omap bound_key calls →
      gPrefs (foldl call S calls) !! key = gPrefs S !! key.
Proof.
  revert S. induction calls as [|c calls IH]; intros S Hmode.
  { simpl. by rewrite app_nil_r. }
  destruct (call_saving c S Hmode) as (Hmode' & Hwritten & Hread & Hframe).
  destruct (IH (call S c) Hmode') as (IHwritten & IHread & IHframe).
  rewrite omap_bound_key_cons. simpl foldl.
  rewrite IHwritten, IHread, Hwritten, Hread.
  split_and!; [by rewrite <-app_assoc|done|].
  intros key [Hc Hcalls]%not_elem_of_app.
  by rewrite IHframe, Hframe.
Qed.

Section panel_facts.
Context `{!StdSort}.
Context (translate GetCustomTranslation : wxString → wxString).
Context (flags : BuildFlags).

(** The calls of [PopulateOrExchange] are determined by the sequence that
    [GetModuleData] returns. *)
Lemma PopulateOrExchange_calls (ps ps' : Process) :
  (GetModuleData ps).1 = (GetModuleData ps').1 →
  (PopulateOrExchange translate GetCustomTranslation flags ps).1
  = (PopulateOrExchange translate GetCustomTranslation flags ps').1.
Proof.
  unfold PopulateOrExchange.
  destruct (GetModuleData ps), (GetModuleData ps'). simpl. by intros ->.
Qed.

Lemma PopulateOrExchange_form (ps : Process) :
  (PopulateOrExchange translate GetCustomTranslation flags ps).1
  = [SetBorder 2; StartScroller]
    ++ EnableEffects translate GetCustomTranslation (GetModuleData ps).1
    ++ EffectOptions translate flags
    ++ PluginOptions translate flags
    ++ InstructionSet translate flags
    ++ [EndScroller].
Proof. unfold PopulateOrExchange. by destruct (GetModuleData ps). Qed.

Lemma PopulateOrExchange_process (ps : Process) :
  (PopulateOrExchange translate GetCustomTranslation flags ps).2
  = (GetModuleData ps).2.
Proof. unfold PopulateOrExchange. by destruct (GetModuleData ps). Qed.
End panel_facts.

(** C6: the calls of [PopulateOrExchange] open the section "Enable
    Effects" with one [TieCheckBox] per entry of the result of
    [GetModuleData], in the order of the result, with the translated
    prompt of the entry as label, the setting key of the entry as key and
    the default [true], and then close the section. *)
Theorem C6_one_toggle_per_entry `{!StdSort}
    (translate GetCustomTranslation : wxString → wxString)
    (flags : BuildFlags) (ps : Process) :
  ∃ rest,
    (PopulateOrExchange translate GetCustomTranslation flags ps).1
    = [SetBorder 2; StartScroller; StartStatic (translate "Enable Effects")]
      ++ ((λ entry,
            TieCheckBox (GetCustomTranslation (prompt entry)) (setting entry)
              true)
          <$> (GetModuleData ps).1)
      ++ EndStatic :: rest.
Proof.
  rewrite PopulateOrExchange_form. unfold EnableEffects.
  eexists. by rewrite <-!app_assoc.
Qed.

Lemma toggles_not_choice_or_numeric (label : wxString → wxString)
    (data : list Entry) :
  filter (λ c, choice_or_numeric c = true)
    ((λ entry, TieCheckBox (label (prompt entry)) (setting entry) true)
     <$> data)
  = [].
Proof.
  induction data as [|entry data IH]; [done|].
  rewrite fmap_cons, filter_cons_False; [done|]. by simpl.
Qed.

(** C7: the section "Effect Options" asks for a choice control with the
    five labels and the five codes ["sortby:name"],
    ["sortby:publisher:name"], ["sortby:type:name"], ["groupby:publisher"],
    ["groupby:type"], bound to ["/Effects/GroupBy"] with the default
    ["sortby:name"], and for a numeric field of five characters bound to
    ["/Effects/MaxPerGroup"] with the default 0, or 15 under wxGTK; the
    form has no other choice control and no other numeric field. *)
Theorem C7_effect_options `{!StdSort}
    (translate GetCustomTranslation : wxString → wxString)
    (flags : BuildFlags) (ps : Process) :
  let calls := (PopulateOrExchange translate GetCustomTranslation flags ps).1 in
  let choice :=
    TieChoice (translate "S&ort or Group:") "/Effects/GroupBy" "sortby:name"
      [translate "Sorted by Effect Name";
       translate "Sorted by Publisher and Effect Name";
       translate "Sorted by Type and Effect Name";
       translate "Grouped by Publisher";
       translate "Grouped by Type"]
      ["sortby:name"; "sortby:publisher:name"; "sortby:type:name";
       "groupby:publisher"; "groupby:type"] in
  let numeric :=
    TieNumericTextBox (translate "&Maximum effects per group (0 to disable):")
      "/Effects/MaxPerGroup" (if WXGTK flags then 15 else 0) 5 in
  (∃ before after,
     calls = before
             ++ [StartStatic (translate "Effect Options"); StartMultiColumn 2;
                 choice; numeric; EndMultiColumn; EndStatic]
             ++ after)
  ∧ filter (λ c, choice_or_numeric c = true) calls = [choice; numeric].
Proof.
  cbv zeta. rewrite PopulateOrExchange_form. split.
  - exists ([SetBorder 2; StartScroller]
            ++ EnableEffects translate GetCustomTranslation
                 (GetModuleData ps).1),
      (PluginOptions translate flags ++ InstructionSet translate flags
       ++ [EndScroller]).
    by rewrite <-!app_assoc.
  - unfold EnableEffects. rewrite !filter_app.
    rewrite toggles_not_choice_or_numeric.
    unfold PluginOptions, InstructionSet.
    by destruct (EXPERIMENTAL_EFFECT_MANAGEMENT flags),
         (EXPERIMENTAL_EQ_SSE_THREADED flags).
Qed.

(** C8: [Commit] returns [true], whatever the controls of the panel, the
    process and the settings store are. *)
Theorem C8_Commit_returns_true `{!StdSort}
    (translate GetCustomTranslation : wxString → wxString)
    (flags : BuildFlags) (controls : list PrefValue) (ps : Process)
    (prefs : gmap wxString PrefValue) :
  (Commit translate GetCustomTranslation flags controls ps prefs).1.1 = true.
Proof.
  unfold Commit.
  by destruct (PopulateOrExchange translate GetCustomTranslation flags ps).
Qed.

(** C10: after the panel has been opened by [Populate], [Commit] makes the
    same calls on its shuttle as [Populate] made, whatever has become of
    the registry, of the controls and of the store; the keys it writes
    are the keys that [Populate] read, in the same order; [Populate]
    writes no key and [Commit] reads none; and [Commit] leaves every key
    that [Populate] did not read as it was in the store. *)
Theorem C10_Commit_writes_what_Populate_read `{!StdSort}
    (translate GetCustomTranslation : wxString → wxString)
    (flags : BuildFlags) (ps : Process) (prefs : gmap wxString PrefValue)
    (pm' : PluginManager) (controls : list PrefValue)
    (prefs' : gmap wxString PrefValue) :
  let '(S1, ps1) := Populate translate GetCustomTranslation flags ps prefs in
  let '(_, S2, _) :=
    Commit translate GetCustomTranslation flags controls
      (with_registry pm' ps1) prefs' in
  (PopulateOrExchange translate GetCustomTranslation flags
     (with_registry pm' ps1)).1
  = (PopulateOrExchange translate GetCustomTranslation flags ps).1
  ∧ mWritten S2 = mRead S1
  ∧ mWritten S1 = [] ∧ mRead S2 = []
  ∧ ∀ key, key ∉ mRead S1 → gPrefs S2 !! key = prefs' !! key.
Proof.
  unfold Populate, Commit.
  pose proof (PopulateOrExchange_process translate GetCustomTranslation
                flags ps) as Hps1.
  destruct (PopulateOrExchange translate GetCustomTranslation flags ps)
    as [calls ps1] eqn:Hcalls.
  simpl in Hps1.
  assert ((PopulateOrExchange translate GetCustomTranslation flags
             (with_registry pm' ps1)).1 = calls) as Hsame.
  { change calls with (calls, ps1).1. rewrite <-Hcalls.
    apply PopulateOrExchange_calls.
    pose proof (GetModuleData_fills ps) as Hfill. rewrite <-Hps1 in Hfill.
    by rewrite (GetModuleData_cached (with_registry pm' ps1) _ Hfill). }
  destruct (PopulateOrExchange translate GetCustomTranslation flags
              (with_registry pm' ps1)) as [calls' ps2].
  simpl in Hsame. subst calls'.
  destruct (creating_reads calls
              (ShuttleGui_new eIsCreatingFromPrefs prefs []) eq_refl)
    as (Hread1 & Hwritten1 & _).
  destruct (saving_writes calls
              (ShuttleGui_new eIsSavingToPrefs prefs' controls) eq_refl)
    as (Hwritten2 & Hread2 & Hframe).
  simpl in *. rewrite Hread1, Hwritten1, Hwritten2, Hread2.
  split_and!; done.
Qed.

(** * Further properties of the panel's code *)

(** ** Discovery *)

(** X1: every entry of the result of [GetModuleData] comes from a plugin of
    the registry that is of kind module and has a non-empty family: its
    setting is the enabled-setting path of that plugin, and its prompt is
    the curated label of the family or, when the family has none, the
    plugin's [Msgid]. *)
Theorem X1_entries_come_from_family_modules `{!StdSort} (pm : PluginManager)
    (entry : Entry) :
  entry ∈ (GetModuleData (fresh pm)).1 →
  ∃ plug,
    plug ∈ mPlugins pm
    ∧ GetPluginType plug = PluginTypeModule
    ∧ GetEffectFamily plug ≠ ""
    ∧ setting entry = GetPluginEnabledSetting pm plug
    ∧ (SuggestedPrompts !! GetEffectFamily plug = Some (prompt entry)
       ∨ (SuggestedPrompts !! GetEffectFamily plug = None
          ∧ prompt entry = Msgid (GetSymbol plug))).
Proof.
  simpl. rewrite ModuleData_perm.
  intros (plug & -> & Hplug)%list_elem_of_fmap.
  unfold family_modules, GetPlugins in Hplug.
  apply list_elem_of_filter in Hplug as [Hfam Hplug].
  apply list_elem_of_filter in Hplug as [Htype Hplug].
  exists plug. split_and!; [done..|].
  unfold entry_of. simpl.
  destruct (SuggestedPrompts !! GetEffectFamily plug); auto.
Qed.

Lemma X1_scenario_entry_of_LADSPA :
  ∃ plug,
    plug ∈ mPlugins (registry_by_id scenario)
    ∧ GetPluginType plug = PluginTypeModule
    ∧ GetEffectFamily plug ≠ ""
    ∧ "/Plugins/Enable/LADSPA"
      = GetPluginEnabledSetting (registry_by_id scenario) plug
    ∧ (SuggestedPrompts !! GetEffectFamily plug = Some "&LADSPA"
       ∨ (SuggestedPrompts !! GetEffectFamily plug = None
          ∧ "&LADSPA" = Msgid (GetSymbol plug))).
Proof.
  apply (X1_entries_come_from_family_modules (H := insertion_StdSort)
           (registry_by_id scenario)
           {| prompt := "&LADSPA"; setting := "/Plugins/Enable/LADSPA" |}).
  apply (bool_decide_unpack _). by vm_compute.
Defined.

(** X2: the comparison that the constructor hands to [std::sort] is a
    strict weak ordering, as [std::sort] requires, and two entries are
    equivalent under it exactly when their setting keys are equal. *)
Theorem X2_comparison_is_strict_weak_order :
  StrictWeakOrder by_setting
  ∧ ∀ a b : Entry,
      by_setting a b = false ∧ by_setting b a = false ↔ setting a = setting b.
Proof.
  split; [apply StrictWeakOrder_by_setting|].
  intros a b. unfold by_setting. rewrite !ltb_false_le. split.
  - intros [Hba Hab]. by apply (anti_symm String.le).
  - by intros ->.
Qed.

(** ** The form *)

Lemma bindings_toggles (label : wxString → wxString) (data : list Entry) :
  omap binding
    ((λ entry, TieCheckBox (label (prompt entry)) (setting entry) true)
     <$> data)
  = (λ entry, (setting entry, PrefBool true)) <$> data.
Proof.
  induction data as [|entry data IH]; [done|].
  simpl. f_equal. exact IH.
Qed.

(** X3: the settings that the form binds, with their defaults, in the order
    of the calls: one boolean per entry of [GetModuleData]'s result, by
    default [true]; the grouping and the maximum per group; unless
    [EXPERIMENTAL_EFFECT_MANAGEMENT] is defined, the check for updates, by
    default [true], and the rescan, by default [false]; and, when
    [EXPERIMENTAL_EQ_SSE_THREADED] is defined, the use of SSE, by default
    [true]. *)
Theorem X3_bindings_of_the_form `{!StdSort}
    (translate GetCustomTranslation : wxString → wxString)
    (flags : BuildFlags) (ps : Process) :
  omap binding (PopulateOrExchange translate GetCustomTranslation flags ps).1
  = ((λ entry, (setting entry, PrefBool true)) <$> (GetModuleData ps).1)
    ++ [("/Effects/GroupBy", PrefString "sortby:name");
        ("/Effects/MaxPerGroup", PrefInt (if WXGTK flags then 15 else 0))]
    ++ (if EXPERIMENTAL_EFFECT_MANAGEMENT flags then []
        else [("/Plugins/CheckForUpdates", PrefBool true);
              ("/Plugins/Rescan", PrefBool false)])
    ++ (if EXPERIMENTAL_EQ_SSE_THREADED flags
        then [("/SSE/GUI", PrefBool true)] else []).
Proof.
  rewrite PopulateOrExchange_form. unfold EnableEffects.
  rewrite !omap_app, bindings_toggles.
  unfold PluginOptions, InstructionSet.
  destruct (EXPERIMENTAL_EFFECT_MANAGEMENT flags),
    (EXPERIMENTAL_EQ_SSE_THREADED flags);
    simpl; by rewrite ?app_nil_r, <-?app_assoc.
Qed.

Lemma well_nested_toggles (label : wxString → wxString) (data : list Entry)
    (open : list Block) (calls : list ShuttleCall) :
  StaticBlock ∈ open →
  well_nested open
    (((λ entry, TieCheckBox (label (prompt entry)) (setting entry) true)
      <$> data) ++ calls)
  = well_nested open calls.
Proof.
  intros Hopen. induction data as [|entry data IH]; [done|].
  rewrite fmap_cons. simpl. by rewrite bool_decide_true, IH.
Qed.

(** X4: the layout calls of the form are well nested, for every result of
    [GetModuleData] and every build configuration: each [EndStatic],
    [EndMultiColumn] and [EndScroller] ends the innermost open block, each
    bound control is asked for inside a static box, and no block is left
    open. *)
Theorem X4_form_is_well_nested `{!StdSort}
    (translate GetCustomTranslation : wxString → wxString)
    (flags : BuildFlags) (ps : Process) :
  well_nested []
    (PopulateOrExchange translate GetCustomTranslation flags ps).1 = true.
Proof.
  rewrite PopulateOrExchange_form. unfold EnableEffects. simpl.
  rewrite <-app_assoc, well_nested_toggles by set_solver.
  unfold PluginOptions, InstructionSet.
  by destruct (EXPERIMENTAL_EFFECT_MANAGEMENT flags),
       (EXPERIMENTAL_EQ_SSE_THREADED flags).
Qed.

(** ** The shuttle *)

Lemma call_binding (S : ShuttleGui) (c : ShuttleCall) :
  call S c = match binding c with
             | Some b => Tie b.1 b.2 S
             | None => S
             end.
Proof. by destruct c. Qed.

Lemma bound_key_binding (calls : list ShuttleCall) :
  omap bound_key calls = (omap binding calls).*1.
Proof.
  induction calls as [|c calls IH]; [done|].
  destruct c; simpl; first [exact IH | f_equal; exact IH].
Qed.

(** Creating from the settings makes one control per binding, with the
    stored value of its key or the default. *)
Lemma creating_controls (calls : list ShuttleCall) (S : ShuttleGui) :
  mShuttleMode S = eIsCreatingFromPrefs →
  mControls (foldl call S calls)
  = mControls S ++ (stored_or_default (gPrefs S) <$> omap binding calls).
Proof.
  revert S. induction calls as [|c calls IH]; intros S Hmode.
  { simpl. by rewrite app_nil_r. }
  destruct (call_creating c S Hmode) as (Hmode' & _ & _ & Hprefs).
  simpl foldl. rewrite (IH (call S c) Hmode'), Hprefs.
  rewrite call_binding. simpl omap.
  destruct (binding c) as [[key value]|]; [|done].
  unfold Tie. rewrite Hmode. simpl. by rewrite <-app_assoc.
Qed.

Lemma bound_key_fst (c : ShuttleCall) : bound_key c = fst <$> binding c.
Proof. by destruct c. Qed.

(** Saving the control that was created for a binding from a store
    [prefs0] keeps every setting of [prefs0]. *)
Lemma Tie_saving_created (prefs0 : gmap wxString PrefValue)
    (key : wxString) (value : PrefValue) (S : ShuttleGui)
    (rest : list PrefValue) :
  mShuttleMode S = eIsSavingToPrefs →
  prefs0 ⊆ gPrefs S →
  mControls S = stored_or_default prefs0 (key, value) :: rest →
  mShuttleMode (Tie key value S) = eIsSavingToPrefs
  ∧ prefs0 ⊆ gPrefs (Tie key value S)
  ∧ mControls (Tie key value S) = rest
  ∧ dom (gPrefs (Tie key value S)) = dom (gPrefs S) ∪ {[key]}.
Proof.
  intros Hmode Hsub Hcontrols. unfold Tie. rewrite Hmode, Hcontrols. simpl.
  split_and!; [done| |done|].
  - apply map_subseteq_spec. intros key' value' Hkey'.
    destruct (decide (key = key')) as [->|Hne].
    + unfold stored_or_default. simpl. rewrite Hkey'. simpl.
      by rewrite lookup_insert_eq.
    + rewrite lookup_insert_ne by done. by apply (lookup_weaken prefs0).
  - by rewrite dom_insert_L, (comm_L (∪)).
Qed.

(** Saving to the settings the controls that were created from a store
    [prefs0] keeps every setting of [prefs0], adds the bound keys to the
    store, and visits all these controls. *)
Lemma saving_created (prefs0 : gmap wxString PrefValue)
    (calls : list ShuttleCall) (S : ShuttleGui) (rest : list PrefValue) :
  mShuttleMode S = eIsSavingToPrefs →
  prefs0 ⊆ gPrefs S →
  mControls S = (stored_or_default prefs0 <$> omap binding calls) ++ rest →
  prefs0 ⊆ gPrefs (foldl call S calls)
  ∧ mControls (foldl call S calls) = rest
  ∧ dom (gPrefs (foldl call S calls))
    = dom (gPrefs S) ∪ list_to_set (omap bound_key calls).
Proof.
  revert S. induction calls as [|c calls IH]; intros S Hmode Hsub Hcontrols.
  { simpl in *. split_and!; [done..|]. by rewrite (right_id_L ∅ (∪)). }
  simpl foldl. rewrite omap_bound_key_cons, call_binding, bound_key_fst.
  simpl omap in Hcontrols.
  destruct (binding c) as [[key value]|]; simpl in *.
  - destruct (Tie_saving_created prefs0 key value S _ Hmode Hsub Hcontrols)
      as (Hmode' & Hsub' & Hcontrols' & Hdom).
    destruct (IH _ Hmode' Hsub' Hcontrols') as (IHsub & IHcontrols & IHdom).
    split_and!; [done..|]. by rewrite IHdom, Hdom, (assoc_L (∪)).
  - by apply IH.
Qed.

(** Saving stores, for each bound key that is bound once, the value of the
    control at the position of its binding. *)
Lemma saving_stores (calls : list ShuttleCall) (S : ShuttleGui) (i : nat)
    (key : wxString) (value : PrefValue) :
  mShuttleMode S = eIsSavingToPrefs →
  NoDup (omap bound_key calls) →
  omap bound_key calls !! i = Some key →
  mControls S !! i = Some value →
  gPrefs (foldl call S calls) !! key = Some value.
Proof.
  revert S i.
  induction calls as [|c calls IH]; intros S i Hmode Hdistinct Hkey Hvalue.
  { by destruct i. }
  destruct (call_saving c S Hmode) as (Hmode' & _ & _ & _).
  rewrite omap_bound_key_cons, bound_key_fst in Hdistinct, Hkey.
  simpl foldl. pose proof (call_binding S c) as Hcall.
  destruct (binding c) as [[key' value']|]; simpl in *.
  - apply NoDup_cons in Hdistinct as [Hfresh Hdistinct].
    destruct i as [|i]; simpl in *.
    + injection Hkey as ->.
      destruct (saving_writes calls (call S c) Hmode') as (_ & _ & Hframe).
      rewrite Hframe by done. rewrite Hcall. unfold Tie. rewrite Hmode.
      simpl. rewrite lookup_insert_eq.
      destruct (mControls S); by simplify_eq/=.
    + apply (IH (call S c) i); [done..|].
      rewrite Hcall. unfold Tie. rewrite Hmode. simpl.
      destruct (mControls S); by simplify_eq/=.
  - rewrite Hcall. by apply (IH S i).
Qed.

Section panel_lifetime.
Context `{!StdSort}.
Context (translate GetCustomTranslation : wxString → wxString).
Context (flags : BuildFlags).

(** Once [PopulateOrExchange] has run in a process, it makes the same
    calls again, whatever has become of the registry. *)
Lemma PopulateOrExchange_again (ps : Process) (pm' : PluginManager) :
  (PopulateOrExchange translate GetCustomTranslation flags
     (with_registry pm'
        (PopulateOrExchange translate GetCustomTranslation flags ps).2)).1
  = (PopulateOrExchange translate GetCustomTranslation flags ps).1.
Proof.
  apply PopulateOrExchange_calls. rewrite PopulateOrExchange_process.
  by rewrite (GetModuleData_cached
                (with_registry pm' (GetModuleData ps).2) (GetModuleData ps).1)
    by apply GetModuleData_fills.
Qed.

Lemma Populate_shuttle (ps : Process) (prefs : gmap wxString PrefValue) :
  Populate translate GetCustomTranslation flags ps prefs
  = (foldl call (ShuttleGui_new eIsCreatingFromPrefs prefs [])
       (PopulateOrExchange translate GetCustomTranslation flags ps).1,
     (PopulateOrExchange translate GetCustomTranslation flags ps).2).
Proof.
  unfold Populate.
  by destruct (PopulateOrExchange translate GetCustomTranslation flags ps).
Qed.

Lemma Commit_shuttle (controls : list PrefValue) (ps : Process)
    (prefs : gmap wxString PrefValue) :
  Commit translate GetCustomTranslation flags controls ps prefs
  = (true,
     foldl call (ShuttleGui_new eIsSavingToPrefs prefs controls)
       (PopulateOrExchange translate GetCustomTranslation flags ps).1,
     (PopulateOrExchange translate GetCustomTranslation flags ps).2).
Proof.
  unfold Commit.
  by destruct (PopulateOrExchange translate GetCustomTranslation flags ps).
Qed.

Lemma EffectsPrefs_new_shuttle (ps : Process)
    (prefs : gmap wxString PrefValue) :
  EffectsPrefs_new translate GetCustomTranslation flags ps prefs
  = ({| mTitle := translate "Effects";
        mWindow := stored_or_default prefs
                   <$> omap binding
                         (PopulateOrExchange translate GetCustomTranslation
                            flags ps).1 |},
     prefs,
     (PopulateOrExchange translate GetCustomTranslation flags ps).2).
Proof.
  unfold EffectsPrefs_new. rewrite Populate_shuttle.
  rewrite creating_controls by done.
  by destruct (creating_reads
                 (PopulateOrExchange translate GetCustomTranslation flags ps).1
                 (ShuttleGui_new eIsCreatingFromPrefs prefs []) eq_refl)
    as (_ & _ & ->).
Qed.
End panel_lifetime.

(** X5: a panel made later in the same process is asked for the same
    controls as the first one, in the same order, whatever has become of
    the registry and of the store: the calls of [PopulateOrExchange] are
    the same, the same keys are read, and the window gets as many bound
    controls. *)
Theorem X5_later_panel_has_same_controls `{!StdSort}
    (translate GetCustomTranslation : wxString → wxString)
    (flags : BuildFlags) (ps : Process) (prefs : gmap wxString PrefValue)
    (pm' : PluginManager) (prefs' : gmap wxString PrefValue) :
  let '(S1, ps1) := Populate translate GetCustomTranslation flags ps prefs in
  let '(S2, _) :=
    Populate translate GetCustomTranslation flags (with_registry pm' ps1)
      prefs' in
  (PopulateOrExchange translate GetCustomTranslation flags
     (with_registry pm' ps1)).1
  = (PopulateOrExchange translate GetCustomTranslation flags ps).1
  ∧ mRead S2 = mRead S1
  ∧ length (mControls S2) = length (mControls S1).
Proof.
  rewrite !Populate_shuttle, PopulateOrExchange_again.
  split_and!; [done| |].
  - destruct (creating_reads
                (PopulateOrExchange translate GetCustomTranslation flags ps).1
                (ShuttleGui_new eIsCreatingFromPrefs prefs []) eq_refl)
      as (-> & _).
    by destruct (creating_reads
                (PopulateOrExchange translate GetCustomTranslation flags ps).1
                (ShuttleGui_new eIsCreatingFromPrefs prefs' []) eq_refl)
      as (-> & _).
  - rewrite !creating_controls by done. simpl. by rewrite !length_fmap.
Qed.

(** X6: the constructor of the panel leaves the settings store as it is,
    makes one bound control per binding of the form, holding the stored
    value of the key or, when the store has none, the default of the
    binding, and leaves the result of [GetModuleData] in [theData]. *)
Theorem X6_constructor_reads_settings `{!StdSort}
    (translate GetCustomTranslation : wxString → wxString)
    (flags : BuildFlags) (ps : Process) (prefs : gmap wxString PrefValue) :
  let '(panel, prefs1, ps1) :=
    EffectsPrefs_new translate GetCustomTranslation flags ps prefs in
  prefs1 = prefs
  ∧ mWindow panel
    = stored_or_default prefs
      <$> omap binding
            (PopulateOrExchange translate GetCustomTranslation flags ps).1
  ∧ theData ps1 = Some (GetModuleData ps).1.
Proof.
  rewrite EffectsPrefs_new_shuttle, PopulateOrExchange_process.
  split_and!; [done..|]. apply GetModuleData_fills.
Qed.

(** X7: committing a panel whose controls have not been edited keeps every
    setting of the store as it was when the panel was made; the store
    gains the bound keys it did not have, and every control of the window
    is visited. *)
Theorem X7_commit_of_unedited_panel_keeps_settings `{!StdSort}
    (translate GetCustomTranslation : wxString → wxString)
    (flags : BuildFlags) (ps : Process) (prefs : gmap wxString PrefValue)
    (pm' : PluginManager) :
  let '(panel, prefs1, ps1) :=
    EffectsPrefs_new translate GetCustomTranslation flags ps prefs in
  let '(_, S2, _) :=
    Commit translate GetCustomTranslation flags (mWindow panel)
      (with_registry pm' ps1) prefs1 in
  prefs ⊆ gPrefs S2
  ∧ dom (gPrefs S2) = dom prefs ∪ list_to_set (mWritten S2)
  ∧ mControls S2 = [].
Proof.
  rewrite EffectsPrefs_new_shuttle, Commit_shuttle, PopulateOrExchange_again.
  simpl mWindow.
  destruct (saving_created prefs
              (PopulateOrExchange translate GetCustomTranslation flags ps).1
              (ShuttleGui_new eIsSavingToPrefs prefs
                 (stored_or_default prefs
                  <$> omap binding
                        (PopulateOrExchange translate GetCustomTranslation
                           flags ps).1))
              []) as (Hsub & Hcontrols & Hdom);
    [done|done|by rewrite app_nil_r|].
  destruct (saving_writes
              (PopulateOrExchange translate GetCustomTranslation flags ps).1
              (ShuttleGui_new eIsSavingToPrefs prefs
                 (stored_or_default prefs
                  <$> omap binding
                        (PopulateOrExchange translate GetCustomTranslation
                           flags ps).1)) eq_refl) as (-> & _ & _).
  by split_and!.
Qed.

(** X8: when the bound keys of the form are pairwise distinct, [Commit]
    stores under each bound key the value of the control at the position
    of its binding. *)
Theorem X8_commit_stores_the_control_values `{!StdSort}
    (translate GetCustomTranslation : wxString → wxString)
    (flags : BuildFlags) (controls : list PrefValue) (ps : Process)
    (prefs : gmap wxString PrefValue) (i : nat) (key : wxString)
    (value : PrefValue) :
  let calls :=
    (PopulateOrExchange translate GetCustomTranslation flags ps).1 in
  NoDup (omap bound_key calls) →
  omap bound_key calls !! i = Some key →
  controls !! i = Some value →
  gPrefs (Commit translate GetCustomTranslation flags controls ps prefs).1.2
    !! key = Some value.
Proof.
  intros calls Hdistinct Hkey Hvalue. rewrite Commit_shuttle. simpl.
  by apply (saving_stores calls _ i).
Qed.

Lemma X8_scenario_toggle_switched_off :
  gPrefs (Commit (H := insertion_StdSort) (λ s, s) (λ s, s)
            {| WXGTK := false; EXPERIMENTAL_EFFECT_MANAGEMENT := false;
               EXPERIMENTAL_EQ_SSE_THREADED := false |}
            [PrefBool false; PrefBool true; PrefBool true]
            (fresh (registry_by_id scenario)) ∅).1.2
    !! "/Plugins/Enable/AAA" = Some (PrefBool false).
Proof.
  apply (X8_commit_stores_the_control_values (H := insertion_StdSort)
           (λ s, s) (λ s, s) _ _ _ _ 0).
  - apply (bool_decide_unpack _). by vm_compute.
  - by vm_compute.
  - reflexivity.
Defined.

(** Two registries with the same plugins and setting paths, whose entries
    have pairwise distinct setting keys, give the same sequence. *)
Lemma ModuleData_unique `{!StdSort} (pm1 pm2 : PluginManager) :
  mPlugins pm1 ≡ₚ mPlugins pm2 →
  GetPluginEnabledSetting pm1 = GetPluginEnabledSetting pm2 →
  NoDup (setting <$> ModuleData pm1) →
  ModuleData pm1 = ModuleData pm2.
Proof.
  intros Hplugs Hsetting Hdistinct.
  assert (ModuleData pm1 ≡ₚ ModuleData pm2) as Hperm.
  { rewrite !ModuleData_perm. unfold family_modules, GetPlugins.
    rewrite (entry_of_setting pm1 pm2 Hsetting). by rewrite Hplugs. }
  apply (StronglySorted_unique_strong setting_le);
    [|apply ModuleData_sorted..|done].
  intros e1 e2 He1 He2 H12 H21.
  apply (NoDup_fmap_elem_inj setting (ModuleData pm1)); [done..| |].
  - by rewrite Hperm.
  - by apply (anti_symm String.le).
Qed.

(** X9: when the setting keys of the entries are pairwise distinct, the
    form that a fresh process builds does not depend on the order in which
    the registry presents its plugins: [PopulateOrExchange] makes the same
    calls, in the same order. *)
Theorem X9_form_independent_of_iteration `{!StdSort}
    (translate GetCustomTranslation : wxString → wxString)
    (flags : BuildFlags) (pm1 pm2 : PluginManager) :
  mPlugins pm1 ≡ₚ mPlugins pm2 →
  GetPluginEnabledSetting pm1 = GetPluginEnabledSetting pm2 →
  NoDup (setting <$> (GetModuleData (fresh pm1)).1) →
  (PopulateOrExchange translate GetCustomTranslation flags (fresh pm1)).1
  = (PopulateOrExchange translate GetCustomTranslation flags (fresh pm2)).1.
Proof.
  intros Hplugs Hsetting Hdistinct.
  apply PopulateOrExchange_calls. simpl. by apply ModuleData_unique.
Qed.

Lemma X9_scenario_form_either_order :
  (PopulateOrExchange (H := insertion_StdSort) (λ s, s) (λ s, s)
     {| WXGTK := false; EXPERIMENTAL_EFFECT_MANAGEMENT := false;
        EXPERIMENTAL_EQ_SSE_THREADED := false |}
     (fresh (registry_by_id scenario))).1
  = (PopulateOrExchange (H := insertion_StdSort) (λ s, s) (λ s, s)
       {| WXGTK := false; EXPERIMENTAL_EFFECT_MANAGEMENT := false;
          EXPERIMENTAL_EQ_SSE_THREADED := false |}
       (fresh (registry_by_id (reverse scenario)))).1.
Proof.
  apply (X9_form_independent_of_iteration (H := insertion_StdSort)
           (λ s, s) (λ s, s) _
           (registry_by_id scenario) (registry_by_id (reverse scenario))).
  - symmetry. apply reverse_Permutation.
  - reflexivity.
  - apply (bool_decide_unpack _). by vm_compute.
Defined.

(** ** Accelerators *)

(** The curated prompts that have an accelerator, by family. *)
Lemma curated_accelerator (family : wxString) (a : wxChar) :
  SuggestedPrompts !! family ≫= accelerator = Some a →
  (family, a) ∈ [("LADSPA", "L"%char); ("LV2", "2"%char);
                 ("Nyquist", "Y"%char); ("Vamp", "V"%char);
                 ("VST", "S"%char)].
Proof.
  destruct (SuggestedPrompts !! family) as [label|] eqn:Hlabel; [|done].
  apply elem_of_list_to_map_2 in Hlabel.
  rewrite !elem_of_cons, elem_of_nil in Hlabel. rewrite !elem_of_cons.
  destruct Hlabel as [?|[?|[?|[?|[?|[?|[]]]]]]]; simplify_eq; vm_compute;
    intros; simplify_eq; auto 10.
Qed.

Lemma omap_NoDup_table {A B : Type} (g : A → option B)
    (table : list (A * B)) (l : list A) :
  (∀ x y, g x = Some y → (x, y) ∈ table) →
  NoDup table.*2 →
  NoDup l →
  NoDup (omap g l).
Proof.
  intros Htable Hinj. induction 1 as [|x l Hx Hl IH]; simpl.
  { constructor. }
  destruct (g x) as [y|] eqn:Hgx; [|done].
  constructor; [|done].
  intros (x' & Hx' & Hgx')%list_elem_of_omap.
  assert (x = x') as ->; [|done].
  assert ((x, y) = (x', y)) as Heq; [|by injection Heq].
  apply (NoDup_fmap_elem_inj snd table); auto.
Qed.

Lemma omap_fmap_ext {A B C : Type} (f : B → option C) (g : A → B)
    (h : A → option C) (l : list A) :
  (∀ x, x ∈ l → f (g x) = h x) → omap f (g <$> l) = omap h l.
Proof.
  induction l as [|x l IH]; intros Hext; [done|].
  simpl. rewrite (Hext x) by left.
  destruct (h x); [f_equal|]; apply IH; intros; apply Hext; by right.
Qed.

Lemma accelerators_toggles (data : list Entry) :
  accelerators
    ((λ entry, TieCheckBox (prompt entry) (setting entry) true) <$> data)
  = omap (λ entry, accelerator (prompt entry)) data.
Proof.
  unfold accelerators. induction data as [|entry data IH]; [done|].
  simpl. destruct (accelerator (prompt entry)); [f_equal|]; exact IH.
Qed.

(** X10: in the untranslated form, the accelerator characters of the
    controls are pairwise distinct, whenever the modules with a family
    have pairwise different families and those without a curated prompt
    have a display name without accelerator: the curated prompts give
    each family an accelerator of its own, different from those of the
    other controls of the form. *)
Theorem X10_accelerators_are_distinct `{!StdSort} (flags : BuildFlags)
    (pm : PluginManager) :
  NoDup (GetEffectFamily <$> family_modules pm) →
  (∀ plug, plug ∈ family_modules pm →
     SuggestedPrompts !! GetEffectFamily plug = None →
     accelerator (Msgid (GetSymbol plug)) = None) →
  NoDup (accelerators
           (PopulateOrExchange (λ s, s) (λ s, s) flags (fresh pm)).1).
Proof.
  intros Hfamilies Hplain.
  rewrite PopulateOrExchange_form. unfold accelerators, EnableEffects.
  rewrite !omap_app. fold (accelerators
    ((λ entry, TieCheckBox (prompt entry) (setting entry) true)
     <$> (GetModuleData (fresh pm)).1)).
  rewrite accelerators_toggles. simpl fst. rewrite ModuleData_perm.
  assert (omap (λ entry, accelerator (prompt entry))
            (entry_of pm <$> family_modules pm)
          = omap (λ family, SuggestedPrompts !! family ≫= accelerator)
              (GetEffectFamily <$> family_modules pm)) as ->.
  { rewrite (omap_fmap_ext _ GetEffectFamily
               (λ plug, SuggestedPrompts !! GetEffectFamily plug
                        ≫= accelerator)) by done.
    apply omap_fmap_ext. intros plug Hplug. unfold entry_of. simpl.
    destruct (SuggestedPrompts !! GetEffectFamily plug) eqn:Hlabel; [done|].
    simpl. by apply Hplain. }
  pose proof (omap_NoDup_table _ _ _ curated_accelerator
                ltac:(by apply (bool_decide_unpack _); vm_compute)
                Hfamilies) as Hdistinct.
  assert (∀ a,
            a ∈ omap (λ family, SuggestedPrompts !! family ≫= accelerator)
                  (GetEffectFamily <$> family_modules pm) →
            a ∈ ["L"; "2"; "Y"; "V"; "S"]%char) as Hcurated.
  { intros a (family & _ & Ha%curated_accelerator)%list_elem_of_omap.
    revert Ha. rewrite !elem_of_cons, !elem_of_nil.
    intros [?|[?|[?|[?|[?|[]]]]]]; simplify_eq; auto 10. }
  unfold PluginOptions, InstructionSet.
  destruct (EXPERIMENTAL_EFFECT_MANAGEMENT flags),
    (EXPERIMENTAL_EQ_SSE_THREADED flags); simpl;
    rewrite ?app_nil_r; (apply NoDup_app; split_and!; [done| |]);
    try (apply (bool_decide_unpack _); by vm_compute);
    intros a Ha%Hcurated; revert Ha; rewrite !elem_of_cons, !elem_of_nil;
    intros [?|[?|[?|[?|[?|[]]]]]] Hfixed; simplify_eq;
    revert Hfixed; apply (bool_decide_unpack _); by vm_compute.
Qed.

Lemma X10_three_families :
  NoDup (accelerators
           (PopulateOrExchange (H := insertion_StdSort) (λ s, s) (λ s, s)
              {| WXGTK := false; EXPERIMENTAL_EFFECT_MANAGEMENT := false;
                 EXPERIMENTAL_EQ_SSE_THREADED := true |}
              (fresh (registry_by_id scenario))).1).
Proof.
  apply (X10_accelerators_are_distinct (H := insertion_StdSort)).
  - apply (bool_decide_unpack _). by vm_compute.
  - intros plug Hplug. revert Hplug.
    change (family_modules (registry_by_id scenario)) with scenario.
    unfold scenario. rewrite !elem_of_cons, elem_of_nil.
    intros [->|[->|[->|[]]]]; by vm_compute.
Defined.
